(** * fermat.c: probable primes by Fermat's little theorem

    A shallow embedding of [main] of [fermat.c] and the properties of its
    congruence check, its trial loop, its sentinels and its report lines.

    C integers are modelled as [Z]; every conversion between [unsigned int]
    and [int] and every unsigned operation that can wrap is written out.
    The GMP integers [a], [e], [r1] are exact integers.  [rand()] reads a
    tape of integers; the generator's state is the position on the tape.
    [stdout] is the string of the characters written so far.  Loops take
    fuel; a loop that runs out of it ends in [OutOfFuel], never in [Done]. *)

From Stdlib Require Import ZArith Lia List Bool String Ascii.
From Stdlib Require Import DecimalString Zdivisibility.
From mathcomp Require ssreflect ssrfun ssrbool eqtype ssrnat div prime binomial.
Import ListNotations.

Local Open Scope Z_scope.

(** ** Machine integers *)

Definition UINT_MOD : Z := 2 ^ 32.
Definition INT_MAX : Z := 2 ^ 31 - 1.

(** Conversion to [unsigned int]: reduction modulo 2^32. *)
Definition to_uint (x : Z) : Z := x mod UINT_MOD.

(** Conversion of an [unsigned int] to [int], as gcc and clang do it:
    values above [INT_MAX] wrap to the negative ones. *)
Definition to_int (x : Z) : Z :=
  let y := x mod UINT_MOD in
  if y <=? INT_MAX then y else y - UINT_MOD.

(** ** Results of running a fragment of the program *)

Inductive res (A : Type) : Type :=
| Done (x : A)     (* ran to its end *)
| Fault            (* division by zero *)
| OutOfFuel.         (* the model's fuel ran out *)
Arguments Done {A} x.
Arguments Fault {A}.
Arguments OutOfFuel {A}.

Definition bind {A B : Type} (m : res A) (f : A -> res B) : res B :=
  match m with
  | Done x => f x
  | Fault => Fault
  | OutOfFuel => OutOfFuel
  end.

Notation "x <- m ;; k" := (bind m (fun x => k))
  (at level 61, m at next level, right associativity).
Notation "' pat <- m ;; k" := (bind m (fun x => match x with pat => k end))
  (at level 61, pat pattern, m at next level, right associativity).

(** ** The GMP primitives the program calls, as the GMP manual gives them *)

Module Mpz.

(** The three [mpz_t] variables of [main]. *)
Record vars : Type := mk { a : Z; e : Z; r1 : Z }.

(** [mpz_init] sets a variable to 0. *)
Definition init : vars := mk 0 0 0.

Definition set_ui (op : Z) : Z := op.
Definition pow_ui (base exp : Z) : Z := base ^ exp.
Definition sub (op1 op2 : Z) : Z := op1 - op2.

(** [mpz_mod_ui]: the remainder is never negative; a zero divisor is a
    division by zero. *)
Definition mod_ui (n d : Z) : res Z :=
  if d =? 0 then Fault else Done (n mod d).

(** [mpz_cmp_ui]: positive, zero or negative, as an [int]. *)
Definition cmp_ui (op1 op2 : Z) : Z :=
  match op1 ?= op2 with
  | Eq => 0
  | Lt => -1
  | Gt => 1
  end.

End Mpz.

(** ** The state of [main] *)

(** What outlives one candidate: the GMP variables, the position of the
    random generator and [stdout]. *)
Record world : Type := mkWorld {
  bigs : Mpz.vars;
  rng : nat;
  out : string
}.

(** Lines 53 to 68: nothing drawn, nothing written, the GMP variables
    initialised. *)
Definition world0 : world := mkWorld Mpz.init 0%nat EmptyString.

(** The variables declared inside the [for] body. *)
Record locals : Type := mkLocals {
  trial : Z;
  composite_witness : Z;
  fermat_liar : Z;
  a1 : Z
}.

(** Lines 78 to 92: their initial values. *)
Definition locals0 : locals := mkLocals 0 0 0 0.

(** ** printf *)

Definition nl : string := String (ascii_of_nat 10) EmptyString.

(** [%d] *)
Definition dec (x : Z) : string := NilZero.string_of_int (Z.to_int x).

(** The formats of the program only use [%d]. *)
Fixpoint format (fmt : string) (args : list Z) : string :=
  match fmt with
  | EmptyString => EmptyString
  | String c rest =>
      match c, rest with
      | "%"%char, String "d"%char rest' =>
          match args with
          | x :: args' => (dec x ++ format rest' args')%string
          | [] => format rest' []
          end
      | _, _ => String c (format rest args)
      end
  end.

Definition printf (fmt : string) (args : list Z) (w : world) : world :=
  mkWorld (bigs w) (rng w) (out w ++ format fmt args).

(** ** [main] *)

Section Program.

(** The values [rand()] returns, in order. *)
Variable tape : nat -> Z.

Definition rand (w : world) : Z * world :=
  (tape (rng w), mkWorld (bigs w) (S (rng w)) (out w)).

(** Line 104: [rand() % (p - 2) + 2], in [unsigned int]. *)
Definition sample (p r : Z) : res Z :=
  let d := to_uint (p - 2) in
  if d =? 0 then Fault else Done (to_uint (to_uint r mod d + 2)).

(** Lines 108 to 126: the congruence check on the shared GMP variables;
    the result is [cmp1]. *)
Definition congruence_check (v : Mpz.vars) (p a1 : Z) : res (Z * Mpz.vars) :=
  let v := Mpz.mk (Mpz.set_ui a1) (Mpz.e v) (Mpz.r1 v) in
  let v := Mpz.mk (Mpz.a v) (Mpz.pow_ui (Mpz.a v) p) (Mpz.r1 v) in
  let v := Mpz.mk (Mpz.a v) (Mpz.sub (Mpz.e v) (Mpz.a v)) (Mpz.r1 v) in
  r <- Mpz.mod_ui (Mpz.e v) p ;;
  let v := Mpz.mk (Mpz.a v) (Mpz.e v) r in
  let cmp1 := to_uint (Mpz.cmp_ui (Mpz.r1 v) 0) in
  Done (cmp1, v).

(** Lines 99 to 147: one pass through the [while] body. *)
Definition trial_body (p : Z) (w : world) (l : locals)
  : res (world * locals) :=
  let olda1 := a1 l in
  let '(r, w) := rand w in
  a1' <- sample p r ;;
  '(cmp1, v) <- congruence_check (bigs w) p a1' ;;
  let w := mkWorld v (rng w) (out w) in
  let l := mkLocals (trial l) (composite_witness l) (fermat_liar l) a1' in
  let l :=
    if negb (cmp1 =? 0)
    then mkLocals (trial l) (to_int a1') (to_int olda1) (a1 l)
    else l in
  Done (w, mkLocals (trial l + 1) (composite_witness l) (fermat_liar l) (a1 l)).

(** Line 94: the [while] loop. *)
Fixpoint trial_loop (fuel : nat) (p : Z) (w : world) (l : locals)
  : res (world * locals) :=
  if (trial l <? 20) && (composite_witness l =? 0) then
    match fuel with
    | O => OutOfFuel
    | S fuel' =>
        '(w', l') <- trial_body p w l ;;
        trial_loop fuel' p w' l'
    end
  else Done (w, l).

(** Lines 150 to 164: the report. *)
Definition report (p : Z) (w : world) (l : locals) : world :=
  if composite_witness l =? 0 then
    printf ("%d is a probable prime" ++ nl) [to_int p] w
  else
    let w := printf "%d is composite - %d is a composite witness"
               [to_int p; composite_witness l] w in
    let w :=
      if fermat_liar l >? 0
      then printf " - %d is a fermat liar for %d"
             [fermat_liar l; to_int p] w
      else w in
    printf nl [] w.

(** Lines 74 to 165: the body of the [for] loop. *)
Definition candidate_body (fuel : nat) (p : Z) (w : world) : res world :=
  '(w', l) <- trial_loop fuel p w locals0 ;;
  Done (report p w' l).

(** Line 73: the [for] loop; [max] is an [int], compared as unsigned. *)
Fixpoint scan_loop (fuel inner : nat) (max p : Z) (w : world) : res world :=
  if p <? to_uint max then
    match fuel with
    | O => OutOfFuel
    | S fuel' =>
        w' <- candidate_body inner p w ;;
        scan_loop fuel' inner max (to_uint (p + 1)) w'
    end
  else Done w.

(** [main] with the bound [max] as a parameter. *)
Definition fermat_main_upto (max : Z) (fuel : nat) : res world :=
  scan_loop fuel fuel max 3 world0.

(** Line 57: [max = 1000]. *)
Definition fermat_main (fuel : nat) : res world :=
  fermat_main_upto 1000 fuel.

End Program.

(** ** The program with fresh GMP variables for every trial

    initialised before the check and released after it, as the
    specification describes the accumulators; nothing else differs from
    [fermat_main_upto]. *)

Section FreshAccumulators.

Variable tape : nat -> Z.

Definition release (w : world) : world :=
  mkWorld Mpz.init (rng w) (out w).

Definition trial_body_fresh (p : Z) (w : world) (l : locals)
  : res (world * locals) :=
  '(w', l') <- trial_body tape p (release w) l ;;
  Done (release w', l').

Fixpoint trial_loop_fresh (fuel : nat) (p : Z) (w : world) (l : locals)
  : res (world * locals) :=
  if (trial l <? 20) && (composite_witness l =? 0) then
    match fuel with
    | O => OutOfFuel
    | S fuel' =>
        '(w', l') <- trial_body_fresh p w l ;;
        trial_loop_fresh fuel' p w' l'
    end
  else Done (w, l).

Definition candidate_body_fresh (fuel : nat) (p : Z) (w : world)
  : res world :=
  '(w', l) <- trial_loop_fresh fuel p w locals0 ;;
  Done (report p w' l).

Fixpoint scan_loop_fresh (fuel inner : nat) (max p : Z) (w : world)
  : res world :=
  if p <? to_uint max then
    match fuel with
    | O => OutOfFuel
    | S fuel' =>
        w' <- candidate_body_fresh inner p w ;;
        scan_loop_fresh fuel' inner max (to_uint (p + 1)) w'
    end
  else Done w.

Definition fermat_main_fresh_upto (max : Z) (fuel : nat) : res world :=
  scan_loop_fresh fuel fuel max 3 world0.

End FreshAccumulators.

(** What a run shows to the outside: the characters written and the number
    of calls of [rand()]. *)
Definition observe (r : res world) : res (string * nat) :=
  w <- r ;; Done (out w, rng w).

(** Two worlds that differ at most in the GMP variables. *)
Definition same_view (w1 w2 : world) : Prop :=
  rng w1 = rng w2 /\ out w1 = out w2.

Definition same_state (x y : world * locals) : Prop :=
  same_view (fst x) (fst y) /\ snd x = snd y.

(** Two runs that end the same way, in related results. *)
Definition lift {A : Type} (R : A -> A -> Prop) (x y : res A) : Prop :=
  match x, y with
  | Done a, Done b => R a b
  | Fault, Fault => True
  | OutOfFuel, OutOfFuel => True
  | _, _ => False
  end.

(** ** The specification's vocabulary *)

(** The congruence of Fermat's little theorem, on exact integers. *)
Definition congruent (p a : Z) : bool := (a ^ p - a) mod p =? 0.

(** The witness drawn when [rand()] returns [r]. *)
Definition witness_for (p r : Z) : Z :=
  to_uint (to_uint r mod to_uint (p - 2) + 2).

(** The GMP variables after the check of [a] against [p]. *)
Definition bigs_after (p a : Z) : Mpz.vars :=
  Mpz.mk a (a ^ p - a) ((a ^ p - a) mod p).

(** The specification's result of testing one candidate. *)
Inductive TestOutcome : Type :=
| ProbablePrime
| Composite (witness : Z) (liar : option Z).

(** How lines 150 to 158 read the two sentinels. *)
Definition outcome_of (l : locals) : TestOutcome :=
  if composite_witness l =? 0 then ProbablePrime
  else Composite (composite_witness l)
         (if fermat_liar l >? 0 then Some (fermat_liar l) else None).

(** The specification's line formats, without the end of line. *)
Definition line_of (p : Z) (o : TestOutcome) : string :=
  match o with
  | ProbablePrime => dec p ++ " is a probable prime"
  | Composite w None =>
      dec p ++ " is composite - " ++ dec w ++ " is a composite witness"
  | Composite w (Some x) =>
      dec p ++ " is composite - " ++ dec w ++ " is a composite witness"
        ++ " - " ++ dec x ++ " is a fermat liar for " ++ dec p
  end%string.

(** The lines of a list of outcomes, each with its end of line. *)
Fixpoint render (os : list (Z * TestOutcome)) : string :=
  match os with
  | [] => EmptyString
  | (p, o) :: os' => (line_of p o ++ nl ++ render os')%string
  end.

(** [n] consecutive integers from [p] on. *)
Fixpoint upfrom (p : Z) (n : nat) : list Z :=
  match n with
  | O => []
  | S n' => p :: upfrom (p + 1) n'
  end.

(** The candidates of the specification: 3, 4, ..., [max - 1]. *)
Definition candidates (max : Z) : list Z := upfrom 3 (Z.to_nat (max - 3)).

Section Vocabulary.

Variable tape : nat -> Z.

(** The witness of the trial that makes the [k]-th call of [rand()]. *)
Definition drawn (p : Z) (k : nat) : Z := witness_for p (tape k).

(** The [N] trials from call [k] on all pass the check. *)
Definition passes_before (p : Z) (k N : nat) : Prop :=
  forall i, (i < N)%nat -> congruent p (drawn p (k + i)) = true.

(** The trial of index [N], counted from call [k], fails the check. *)
Definition fails_at (p : Z) (k N : nat) : Prop :=
  congruent p (drawn p (k + N)) = false.

(** The first of the [n] trials from call [k] on whose check fails. *)
Fixpoint first_failure (p : Z) (k n : nat) : option nat :=
  match n with
  | O => None
  | S n' =>
      if congruent p (drawn p k)
      then option_map S (first_failure p (S k) n')
      else Some O
  end.

(** Where the loop stops when it is entered with call [k] of [rand()]
    next and [n] trials left, according to the first failing trial. *)
Definition stops_as (p : Z) (k n : nat) (l : locals)
  (w' : world) (l' : locals) : Prop :=
  match first_failure p k n with
  | None =>
      rng w' = (k + n)%nat /\
      trial l' = trial l + Z.of_nat n /\
      composite_witness l' = 0 /\
      fermat_liar l' = fermat_liar l
  | Some i =>
      rng w' = (k + S i)%nat /\
      trial l' = trial l + Z.of_nat i + 1 /\
      composite_witness l' = drawn p (k + i) /\
      fermat_liar l' = match i with
                       | O => a1 l
                       | S j => drawn p (k + j)
                       end
  end.

(** The specification's scanner: the trial loop on each candidate of a
    list, in order, each outcome paired with its candidate and its line
    sent to [stdout]. *)
Fixpoint scan_list (fuel : nat) (ps : list Z) (w : world)
  : res (list (Z * TestOutcome) * world) :=
  match ps with
  | [] => Done ([], w)
  | p :: ps' =>
      '(w1, l) <- trial_loop tape fuel p w locals0 ;;
      '(os, w2) <- scan_list fuel ps' (report p w1 l) ;;
      Done ((p, outcome_of l) :: os, w2)
  end.

End Vocabulary.

(** Tapes for the examples: [rand()] always 0, and 2 first, then 0. *)
Definition tape_zero (_ : nat) : Z := 0.
Definition tape_two_then_zero (k : nat) : Z :=
  match k with
  | O => 2
  | S _ => 0
  end.

(** The number of ends of line in a string. *)
Fixpoint newlines (s : string) : nat :=
  match s with
  | EmptyString => 0%nat
  | String c s' =>
      ((if Ascii.eqb c (ascii_of_nat 10) then 1 else 0) + newlines s')%nat
  end.

(** What a verdict on [p] says when it is right: a composite witness is
    in range and fails the congruence, a fermat liar is in range and
    satisfies it, and [p] is not prime. *)
Definition sound_verdict (p : Z) (o : TestOutcome) : Prop :=
  match o with
  | ProbablePrime => True
  | Composite x liar =>
      ~ Z.prime p /\
      2 <= x <= p - 1 /\
      (x ^ p - x) mod p <> 0 /\
      match liar with
      | None => True
      | Some y => 2 <= y <= p - 1 /\ (y ^ p - y) mod p = 0
      end
  end.

(** A tape on which [rand()] always returns [r]. *)
Definition tape_const (r : Z) (_ : nat) : Z := r.

(** ** Machine integers: the conversions that change nothing *)

Lemma to_uint_small (x : Z) : 0 <= x < UINT_MOD -> to_uint x = x.
Proof. intros H. unfold to_uint. now apply Z.mod_small. Qed.

Lemma to_int_small (x : Z) : 0 <= x <= INT_MAX -> to_int x = x.
Proof.
  intros H. unfold to_int.
  rewrite Z.mod_small by (unfold INT_MAX, UINT_MOD in *; lia).
  destruct (Z.leb_spec x INT_MAX); lia.
Qed.

(** ** Strings *)

Lemma append_assoc (s t u : string) : ((s ++ t) ++ u = s ++ t ++ u)%string.
Proof. induction s as [|c s IH]; simpl; [reflexivity | now rewrite IH]. Qed.

Lemma append_empty_r (s : string) : (s ++ "" = s)%string.
Proof. induction s as [|c s IH]; simpl; [reflexivity | now rewrite IH]. Qed.

(** ** The witness and the check *)

Lemma witness_for_range (p r : Z) :
  3 <= p < UINT_MOD -> 2 <= witness_for p r <= p - 1.
Proof.
  intros Hp. unfold witness_for.
  rewrite (to_uint_small (p - 2)) by lia.
  pose proof (Z.mod_pos_bound (to_uint r) (p - 2) ltac:(lia)) as Hm.
  rewrite to_uint_small; lia.
Qed.

Lemma sample_witness (p r : Z) :
  3 <= p < UINT_MOD -> sample p r = Done (witness_for p r).
Proof.
  intros Hp. unfold sample, witness_for.
  rewrite (to_uint_small (p - 2)) by lia.
  destruct (Z.eqb_spec (p - 2) 0); [lia | reflexivity].
Qed.

Lemma congruence_check_value (v : Mpz.vars) (p a : Z) :
  0 < p ->
  congruence_check v p a
  = Done (if congruent p a then 0 else 1, bigs_after p a).
Proof.
  intros Hp. unfold congruence_check, Mpz.mod_ui, Mpz.set_ui, Mpz.pow_ui,
    Mpz.sub, Mpz.cmp_ui, congruent, bigs_after. simpl.
  destruct (Z.eqb_spec p 0) as [|_]; [lia|]. simpl.
  pose proof (Z.mod_pos_bound (a ^ p - a) p Hp) as Hm.
  destruct (Z.compare_spec ((a ^ p - a) mod p) 0) as [E|E|E].
  - rewrite E. reflexivity.
  - lia.
  - destruct (Z.eqb_spec ((a ^ p - a) mod p) 0); [lia | reflexivity].
Qed.

(** 2^4 - 2 = 14 leaves 2 modulo 4: 2 is a composite witness for 4. *)
Example check_4_2 :
  congruence_check Mpz.init 4 2 = Done (1, Mpz.mk 2 14 2).
Proof. reflexivity. Qed.

(** 4^15 - 4 is a multiple of 15: 4 is a fermat liar for 15. *)
Example check_15_4 :
  congruence_check Mpz.init 15 4 = Done (0, Mpz.mk 4 1073741820 0).
Proof. reflexivity. Qed.

(** With [rand()] a multiple of [p - 2] the witness is 2; a negative [int]
    would be read as unsigned. *)
Example sample_10 : sample 10 16 = Done 2.
Proof. reflexivity. Qed.

Example sample_negative : sample 10 (-1) = Done 9.
Proof. reflexivity. Qed.

(** The check never reads what the GMP variables held before. *)
Lemma congruence_check_overwrites (v v' : Mpz.vars) (p a : Z) :
  congruence_check v p a = congruence_check v' p a.
Proof. reflexivity. Qed.

Section Trials.

Variable tape : nat -> Z.

Lemma first_failure_none (p : Z) (n k : nat) :
  first_failure tape p k n = None <->
  (forall i, (i < n)%nat -> congruent p (drawn tape p (k + i)) = true).
Proof.
  revert k. induction n as [|n IH]; intros k; simpl.
  - split; [intros _ i Hi; lia | reflexivity].
  - destruct (congruent p (drawn tape p k)) eqn:E.
    + destruct (first_failure tape p (S k) n) eqn:F; simpl.
      * split; [discriminate|]. intros H.
        assert (first_failure tape p (S k) n = None) as X; [|congruence].
        apply IH. intros i Hi.
        replace (S k + i)%nat with (k + S i)%nat by lia. apply H. lia.
      * split; [|reflexivity]. intros _ i Hi.
        destruct i as [|i].
        -- now rewrite Nat.add_0_r.
        -- replace (k + S i)%nat with (S k + i)%nat by lia.
           apply (proj1 (IH (S k)) F). lia.
    + split; [discriminate|]. intros H.
      specialize (H 0%nat ltac:(lia)). rewrite Nat.add_0_r in H. congruence.
Qed.

Lemma first_failure_some (p : Z) (n k N : nat) :
  first_failure tape p k n = Some N <->
  ((N < n)%nat /\
   (forall i, (i < N)%nat -> congruent p (drawn tape p (k + i)) = true) /\
   congruent p (drawn tape p (k + N)) = false).
Proof.
  revert k N. induction n as [|n IH]; intros k N; simpl.
  - split; [discriminate | intros [H _]; lia].
  - destruct (congruent p (drawn tape p k)) eqn:E.
    + destruct N as [|N].
      * split.
        -- destruct (first_failure tape p (S k) n); discriminate.
        -- intros (_ & _ & H). rewrite Nat.add_0_r in H. congruence.
      * specialize (IH (S k) N).
        replace (k + S N)%nat with (S k + N)%nat by lia.
        split.
        -- intros H. destruct (first_failure tape p (S k) n) as [m|] eqn:F;
             [|discriminate]. simpl in H. injection H as ->.
           destruct (proj1 IH eq_refl) as (H1 & H2 & H3).
           repeat split; [lia | | exact H3].
           intros i Hi. destruct i as [|i].
           ++ now rewrite Nat.add_0_r.
           ++ replace (k + S i)%nat with (S k + i)%nat by lia.
              apply H2. lia.
        -- intros (H1 & H2 & H3).
           rewrite (proj2 IH); [reflexivity|].
           repeat split; [lia | | exact H3].
           intros i Hi. replace (S k + i)%nat with (k + S i)%nat by lia.
           apply H2. lia.
    + split.
      * intros H. injection H as <-. rewrite Nat.add_0_r.
        repeat split; [lia | intros i Hi; lia | exact E].
      * intros (_ & H2 & _). destruct N as [|N]; [reflexivity|].
        specialize (H2 0%nat ltac:(lia)). rewrite Nat.add_0_r in H2.
        congruence.
Qed.

(** One pass through the loop body, for a candidate of the scan. *)
Lemma trial_body_value (p : Z) (w : world) (l : locals) :
  3 <= p <= INT_MAX ->
  let x := drawn tape p (rng w) in
  trial_body tape p w l
  = Done (mkWorld (bigs_after p x) (S (rng w)) (out w),
          if congruent p x
          then mkLocals (trial l + 1) (composite_witness l) (fermat_liar l) x
          else mkLocals (trial l + 1) (to_int x) (to_int (a1 l)) x).
Proof.
  intros Hp x. unfold trial_body, rand. cbn [bigs rng out].
  rewrite sample_witness by (unfold INT_MAX, UINT_MOD in *; lia).
  cbn [bind]. rewrite congruence_check_value by lia. cbn [bind].
  subst x. unfold drawn.
  destruct (congruent p (witness_for p (tape (rng w)))); reflexivity.
Qed.

Lemma trial_loop_unfold (fuel : nat) (p : Z) (w : world) (l : locals) :
  trial_loop tape fuel p w l
  = if (trial l <? 20) && (composite_witness l =? 0) then
      match fuel with
      | O => OutOfFuel
      | S fuel' =>
          '(w', l') <- trial_body tape p w l ;;
          trial_loop tape fuel' p w' l'
      end
    else Done (w, l).
Proof. destruct fuel; reflexivity. Qed.

Lemma drawn_range (p : Z) (k : nat) :
  3 <= p <= INT_MAX -> 2 <= drawn tape p k <= p - 1.
Proof.
  intros Hp. apply witness_for_range. unfold INT_MAX, UINT_MOD in *. lia.
Qed.

Lemma trial_loop_run (p : Z) (n : nat) :
  3 <= p <= INT_MAX ->
  forall (fuel : nat) (w : world) (l : locals),
    (n <= fuel)%nat ->
    trial l = 20 - Z.of_nat n ->
    composite_witness l = 0 ->
    0 <= a1 l <= INT_MAX ->
    exists w' l',
      trial_loop tape fuel p w l = Done (w', l') /\
      out w' = out w /\
      stops_as tape p (rng w) n l w' l'.
Proof.
  intros Hp. induction n as [|n IH]; intros fuel w l Hf Ht Hc Ha.
  - exists w, l. rewrite trial_loop_unfold.
    replace (trial l <? 20) with false
      by (symmetry; apply Z.ltb_ge; simpl in Ht; lia).
    unfold stops_as. simpl. repeat split; lia.
  - destruct fuel as [|fuel]; [lia|].
    rewrite trial_loop_unfold.
    replace (trial l <? 20) with true by (symmetry; apply Z.ltb_lt; lia).
    rewrite Hc. cbn [Z.eqb andb].
    rewrite trial_body_value by exact Hp. cbn [bind].
    pose proof (drawn_range p (rng w) Hp) as Hx.
    unfold stops_as. cbn [first_failure].
    destruct (congruent p (drawn tape p (rng w))) eqn:E.
    + edestruct (IH fuel
        (mkWorld (bigs_after p (drawn tape p (rng w))) (S (rng w)) (out w))
        (mkLocals (trial l + 1) (composite_witness l) (fermat_liar l)
           (drawn tape p (rng w)))) as (w' & l' & Hrun & Hout & Hstop);
        cbn [trial composite_witness fermat_liar a1]; try lia.
      exists w', l'. split; [exact Hrun|]. split; [exact Hout|].
      unfold stops_as in Hstop.
      cbn [rng trial composite_witness fermat_liar a1] in Hstop.
      destruct (first_failure tape p (S (rng w)) n) as [i|]; cbn [option_map].
      * destruct Hstop as (H1 & H2 & H3 & H4).
        replace (rng w + S i)%nat with (S (rng w) + i)%nat by lia.
        repeat split; try lia.
        destruct i as [|j]; [now rewrite Nat.add_0_r|].
        replace (rng w + S j)%nat with (S (rng w) + j)%nat by lia.
        exact H4.
      * destruct Hstop as (H1 & H2 & H3 & H4). repeat split; lia.
    + eexists _, _. rewrite trial_loop_unfold.
      cbn [trial composite_witness fermat_liar a1].
      rewrite (to_int_small (drawn tape p (rng w))) by lia.
      replace (drawn tape p (rng w) =? 0) with false
        by (symmetry; apply Z.eqb_neq; lia).
      rewrite andb_false_r. split; [reflexivity|].
      cbn [rng out trial composite_witness fermat_liar a1].
      rewrite Nat.add_0_r, to_int_small by exact Ha.
      repeat split; lia.
Qed.

(** The loop of one candidate, from the initial values of line 78 to 92. *)
Lemma trial_loop_start (p : Z) (fuel : nat) (w : world) :
  3 <= p <= INT_MAX ->
  (20 <= fuel)%nat ->
  exists w' l',
    trial_loop tape fuel p w locals0 = Done (w', l') /\
    out w' = out w /\
    stops_as tape p (rng w) 20 locals0 w' l'.
Proof.
  intros Hp Hf. apply trial_loop_run; try assumption; try reflexivity.
  unfold locals0, INT_MAX. simpl. lia.
Qed.

End Trials.

(** ** The report *)

Lemma report_value (p : Z) (w : world) (l : locals) :
  0 <= p <= INT_MAX ->
  report p w l
  = mkWorld (bigs w) (rng w) (out w ++ line_of p (outcome_of l) ++ nl).
Proof.
  intros Hp. unfold report, outcome_of, printf.
  rewrite (to_int_small p Hp).
  destruct (composite_witness l =? 0); [|destruct (fermat_liar l >? 0)];
    cbn [bigs rng out line_of]; f_equal;
    unfold nl; cbn [format append];
    repeat (rewrite ?append_assoc, ?append_empty_r; cbn [append]);
    reflexivity.
Qed.

(** ** The scan *)

Section Scan.

Variable tape : nat -> Z.

Lemma scan_loop_unfold (fuel inner : nat) (max p : Z) (w : world) :
  scan_loop tape fuel inner max p w
  = if p <? to_uint max then
      match fuel with
      | O => OutOfFuel
      | S fuel' =>
          w' <- candidate_body tape inner p w ;;
          scan_loop tape fuel' inner max (to_uint (p + 1)) w'
      end
    else Done w.
Proof. destruct fuel; reflexivity. Qed.

Lemma scan_loop_list (max : Z) (inner : nat) :
  0 <= max <= INT_MAX ->
  (20 <= inner)%nat ->
  forall (n fuel : nat) (p : Z) (w : world),
    3 <= p ->
    n = Z.to_nat (max - p) ->
    (n <= fuel)%nat ->
    exists os w',
      scan_loop tape fuel inner max p w = Done w' /\
      scan_list tape inner (upfrom p n) w = Done (os, w') /\
      map fst os = upfrom p n /\
      out w' = (out w ++ render os)%string.
Proof.
  intros Hmax Hin.
  assert (to_uint max = max) as Hu
    by (apply to_uint_small; unfold INT_MAX, UINT_MOD in *; lia).
  induction n as [|n IH]; intros fuel p w Hp Hn Hf;
    rewrite scan_loop_unfold, Hu.
  - replace (p <? max) with false by (symmetry; apply Z.ltb_ge; lia).
    exists [], w. cbn [upfrom scan_list map render].
    now rewrite append_empty_r.
  - replace (p <? max) with true by (symmetry; apply Z.ltb_lt; lia).
    destruct fuel as [|fuel]; [lia|].
    destruct (trial_loop_start tape p inner w ltac:(lia) Hin)
      as (w1 & l & Hrun & Hout & _).
    unfold candidate_body. cbn [upfrom scan_list].
    rewrite Hrun. cbn [bind].
    rewrite to_uint_small by (unfold INT_MAX, UINT_MOD in *; lia).
    destruct (IH fuel (p + 1) (report p w1 l) ltac:(lia) ltac:(lia)
                ltac:(lia)) as (os & w' & Hs & Hl & Hm & Ho).
    exists ((p, outcome_of l) :: os), w'.
    rewrite Hs, Hl. cbn [bind map fst render].
    rewrite Hm, Ho, report_value by lia. cbn [out].
    rewrite Hout, !append_assoc. repeat split; reflexivity.
Qed.

End Scan.

Lemma upfrom_length (n : nat) (p : Z) : List.length (upfrom p n) = n.
Proof.
  revert p. induction n as [|n IH]; intros p; simpl;
    [reflexivity | now rewrite IH].
Qed.

Lemma upfrom_nth (n i : nat) (p : Z) :
  (i < n)%nat -> nth i (upfrom p n) 0 = p + Z.of_nat i.
Proof.
  revert i p. induction n as [|n IH]; intros i p Hi; [lia|].
  destruct i as [|i]; simpl upfrom; cbn [nth]; [lia|].
  rewrite IH by lia. lia.
Qed.

(** ** Shared and fresh GMP variables *)

Lemma lift_bind {A B : Type} (R : A -> A -> Prop) (S : B -> B -> Prop)
  (m1 m2 : res A) (f g : A -> res B) :
  lift R m1 m2 ->
  (forall a b, R a b -> lift S (f a) (g b)) ->
  lift S (bind m1 f) (bind m2 g).
Proof.
  intros Hm Hf. destruct m1, m2; simpl in *; try contradiction; auto.
Qed.

Lemma lift_observe (r1 r2 : res world) :
  lift same_view r1 r2 -> observe r1 = observe r2.
Proof.
  destruct r1 as [w1| |], r2 as [w2| |]; simpl; try contradiction;
    try reflexivity.
  intros [Hr Ho]. unfold observe. simpl. now rewrite Hr, Ho.
Qed.

Section SharedVersusFresh.

Variable tape : nat -> Z.

Lemma trial_body_bigs (p : Z) (l : locals) (b1 b2 : Mpz.vars)
  (k : nat) (o : string) :
  trial_body tape p (mkWorld b1 k o) l = trial_body tape p (mkWorld b2 k o) l.
Proof. reflexivity. Qed.

Lemma trial_body_sim (p : Z) (w1 w2 : world) (l : locals) :
  same_view w1 w2 ->
  lift same_state (trial_body tape p w1 l) (trial_body_fresh tape p w2 l).
Proof.
  destruct w1 as [b1 k1 o1], w2 as [b2 k2 o2].
  intros [Hk Ho]. simpl in Hk, Ho. subst k2 o2.
  unfold trial_body_fresh, release. cbn [rng out].
  rewrite (trial_body_bigs p l Mpz.init b1).
  destruct (trial_body tape p (mkWorld b1 k1 o1) l) as [[w' l']| |];
    simpl; auto.
  repeat split.
Qed.

Lemma trial_loop_sim (p : Z) (fuel : nat) :
  forall (w1 w2 : world) (l : locals),
    same_view w1 w2 ->
    lift same_state (trial_loop tape fuel p w1 l)
      (trial_loop_fresh tape fuel p w2 l).
Proof.
  induction fuel as [|fuel IH]; intros w1 w2 l Hv; simpl;
    destruct ((trial l <? 20) && (composite_witness l =? 0));
    simpl; try (split; [exact Hv | reflexivity]); try exact I.
  apply lift_bind with (R := same_state).
  - now apply trial_body_sim.
  - intros [a la] [b lb] [Hab Hl]. simpl in Hab, Hl. subst lb.
    now apply IH.
Qed.

Lemma report_sim (p : Z) (w1 w2 : world) (l : locals) :
  same_view w1 w2 -> same_view (report p w1 l) (report p w2 l).
Proof.
  intros [Hk Ho]. unfold report, printf.
  destruct (composite_witness l =? 0); [|destruct (fermat_liar l >? 0)];
    split; cbn [rng out]; congruence.
Qed.

Lemma scan_loop_sim (inner : nat) (max : Z) (fuel : nat) :
  forall (p : Z) (w1 w2 : world),
    same_view w1 w2 ->
    lift same_view (scan_loop tape fuel inner max p w1)
      (scan_loop_fresh tape fuel inner max p w2).
Proof.
  induction fuel as [|fuel IH]; intros p w1 w2 Hv; simpl;
    destruct (p <? to_uint max); simpl; try exact Hv; try exact I.
  apply lift_bind with (R := same_view).
  - unfold candidate_body, candidate_body_fresh.
    apply lift_bind with (R := same_state).
    + now apply trial_loop_sim.
    + intros [a la] [b lb] [Hab Hl]. simpl in Hab, Hl. subst lb.
      simpl. now apply report_sim.
  - intros a b Hab. now apply IH.
Qed.

End SharedVersusFresh.


(** ** The loop of one candidate, by its first failing trial *)

Section Verdicts.

Variable tape : nat -> Z.

Lemma trial_loop_all_pass (p : Z) (fuel : nat) (w : world) :
  3 <= p <= INT_MAX ->
  (20 <= fuel)%nat ->
  passes_before tape p (rng w) 20 ->
  exists w' l',
    trial_loop tape fuel p w locals0 = Done (w', l') /\
    out w' = out w /\
    rng w' = (rng w + 20)%nat /\
    trial l' = 20 /\
    composite_witness l' = 0 /\
    fermat_liar l' = 0.
Proof.
  intros Hp Hf Hall.
  destruct (trial_loop_start tape p fuel w Hp Hf)
    as (w' & l' & Hrun & Hout & Hstop).
  exists w', l'. unfold stops_as in Hstop.
  rewrite (proj2 (first_failure_none tape p 20 (rng w)) Hall) in Hstop.
  cbn [trial fermat_liar locals0] in Hstop.
  destruct Hstop as (H1 & H2 & H3 & H4). repeat split; assumption.
Qed.

Lemma trial_loop_fails_at (p : Z) (fuel : nat) (w : world) (N : nat) :
  3 <= p <= INT_MAX ->
  (20 <= fuel)%nat ->
  (N < 20)%nat ->
  passes_before tape p (rng w) N ->
  fails_at tape p (rng w) N ->
  exists w' l',
    trial_loop tape fuel p w locals0 = Done (w', l') /\
    out w' = out w /\
    rng w' = (rng w + S N)%nat /\
    trial l' = Z.of_nat N + 1 /\
    composite_witness l' = drawn tape p (rng w + N) /\
    fermat_liar l' = match N with
                     | O => 0
                     | S j => drawn tape p (rng w + j)
                     end.
Proof.
  intros Hp Hf HN Hpass Hfail.
  destruct (trial_loop_start tape p fuel w Hp Hf)
    as (w' & l' & Hrun & Hout & Hstop).
  exists w', l'. unfold stops_as in Hstop.
  rewrite (proj2 (first_failure_some tape p 20 (rng w) N)) in Hstop
    by (repeat split; assumption).
  cbn [trial a1 locals0] in Hstop.
  destruct Hstop as (H1 & H2 & H3 & H4). repeat split; assumption.
Qed.

(** Two first failures of the same run are the same trial. *)
Lemma first_failure_unique (p : Z) (k N M : nat) :
  passes_before tape p k N -> fails_at tape p k N ->
  passes_before tape p k M -> fails_at tape p k M ->
  N = M.
Proof.
  unfold passes_before, fails_at. intros HpN HfN HpM HfM.
  destruct (Nat.lt_trichotomy N M) as [H|[H|H]]; [|exact H|].
  - specialize (HpM N H). congruence.
  - specialize (HpN M H). congruence.
Qed.

End Verdicts.

(** ** The claims *)

(** C1. For a candidate [p >= 3] and a witness [a] with [2 <= a <= p - 1],
    lines 108 to 126 end without a fault, leave [a^p - a] in [e] and its
    remainder modulo [p] in [r1], both exact, and the congruence holds for
    the program ([cmp1 == 0]) if and only if [(a^p - a) mod p] is zero. *)
Theorem congruence_check_correct (v : Mpz.vars) (p a : Z) :
  3 <= p ->
  2 <= a <= p - 1 ->
  exists cmp1 v',
    congruence_check v p a = Done (cmp1, v') /\
    Mpz.e v' = a ^ p - a /\
    Mpz.r1 v' = (a ^ p - a) mod p /\
    (cmp1 =? 0) = ((a ^ p - a) mod p =? 0).
Proof.
  intros Hp Ha. eexists _, _.
  rewrite congruence_check_value by lia.
  split; [reflexivity|]. cbn [Mpz.e Mpz.r1 bigs_after].
  split; [reflexivity|]. split; [reflexivity|].
  unfold congruent. now destruct ((a ^ p - a) mod p =? 0).
Qed.

Lemma congruence_check_correct_witness :
  exists cmp1 v',
    congruence_check Mpz.init 4 2 = Done (cmp1, v') /\
    Mpz.e v' = 2 ^ 4 - 2 /\
    Mpz.r1 v' = (2 ^ 4 - 2) mod 4 /\
    (cmp1 =? 0) = ((2 ^ 4 - 2) mod 4 =? 0).
Proof. apply (congruence_check_correct Mpz.init 4 2); lia. Defined.

(** C8. For a candidate [p >= 3] (an [unsigned int]) and whatever [rand()]
    returns, line 104 ends without a fault in a witness of [[2, p - 1]];
    for [p = 3] the witness is 2 and the pass through the loop body it
    belongs to runs to its end. *)
Theorem sample_in_range (tape : nat -> Z) (p r : Z) :
  3 <= p < UINT_MOD ->
  exists x,
    sample p r = Done x /\
    2 <= x <= p - 1 /\
    (p = 3 -> x = 2 /\
              forall w l, exists w' l',
                trial_body tape p w l = Done (w', l') /\ a1 l' = 2).
Proof.
  intros Hp. exists (witness_for p r).
  pose proof (witness_for_range p r Hp) as Hx.
  split; [now apply sample_witness|]. split; [exact Hx|].
  intros ->. split; [lia|]. intros w l.
  rewrite trial_body_value by (unfold INT_MAX; lia). cbv zeta.
  pose proof (drawn_range tape 3 (rng w) ltac:(unfold INT_MAX; lia)) as Hd.
  eexists _, _. split; [reflexivity|].
  destruct (congruent 3 (drawn tape 3 (rng w))); cbn [a1]; lia.
Qed.

Lemma sample_in_range_witness :
  exists x,
    sample 3 32767 = Done x /\
    2 <= x <= 3 - 1 /\
    (3 = 3 -> x = 2 /\
              forall w l, exists w' l',
                trial_body tape_zero 3 w l = Done (w', l') /\ a1 l' = 2).
Proof.
  apply (sample_in_range tape_zero 3 32767). unfold UINT_MOD. lia.
Defined.

(** C7. For a candidate of the scan, lines 150 to 164 append to [stdout]
    the line the specification gives for the outcome, followed by the end
    of line: the probable prime line, the composite line without a liar, or
    the composite line with the liar. *)
Theorem report_line_format (p : Z) (w : world) (l : locals) :
  3 <= p <= INT_MAX ->
  out (report p w l) = (out w ++ line_of p (outcome_of l) ++ nl)%string /\
  line_of p ProbablePrime = (dec p ++ " is a probable prime")%string /\
  (forall x,
      line_of p (Composite x None)
      = (dec p ++ " is composite - " ++ dec x
           ++ " is a composite witness")%string) /\
  (forall x y,
      line_of p (Composite x (Some y))
      = (dec p ++ " is composite - " ++ dec x
           ++ " is a composite witness - " ++ dec y
           ++ " is a fermat liar for " ++ dec p)%string).
Proof.
  intros Hp. rewrite report_value by lia. cbn [out].
  repeat split; reflexivity.
Qed.

Lemma report_line_format_witness :
  out (report 15 world0 (mkLocals 2 2 4 2))
  = ("15 is composite - 2 is a composite witness - 4 is a fermat liar for 15"
       ++ nl)%string.
Proof.
  destruct (report_line_format 15 world0 (mkLocals 2 2 4 2)) as [H _].
  - unfold INT_MAX. lia.
  - rewrite H. reflexivity.
Defined.

(** C2. When the trials of index 0 to [N - 1] pass and the trial of index
    [N > 0] fails, the loop ends with the failing witness as composite
    witness and the witness of trial [N - 1], and no other, as fermat liar;
    with [N = 1] this is the outcome [Composite a1 (Some a0)]. *)
Theorem liar_is_previous_witness
  (tape : nat -> Z) (p : Z) (fuel : nat) (w : world) (N : nat) :
  3 <= p <= INT_MAX ->
  (20 <= fuel)%nat ->
  (0 < N < 20)%nat ->
  passes_before tape p (rng w) N ->
  fails_at tape p (rng w) N ->
  exists w' l',
    trial_loop tape fuel p w locals0 = Done (w', l') /\
    composite_witness l' = drawn tape p (rng w + N) /\
    fermat_liar l' = drawn tape p (rng w + (N - 1)) /\
    outcome_of l'
    = Composite (drawn tape p (rng w + N))
        (Some (drawn tape p (rng w + (N - 1)))).
Proof.
  intros Hp Hf HN Hpass Hfail.
  destruct (trial_loop_fails_at tape p fuel w N Hp Hf ltac:(lia) Hpass Hfail)
    as (w' & l' & Hrun & _ & _ & _ & Hcw & Hfl).
  destruct N as [|j]; [lia|].
  replace (S j - 1)%nat with j by lia.
  pose proof (drawn_range tape p (rng w + S j) Hp) as Hx.
  pose proof (drawn_range tape p (rng w + j) Hp) as Hy.
  exists w', l'. repeat split; try assumption.
  unfold outcome_of. rewrite Hcw, Hfl.
  replace (drawn tape p (rng w + S j) =? 0) with false
    by (symmetry; apply Z.eqb_neq; lia).
  replace (drawn tape p (rng w + j) >? 0) with true
    by (symmetry; apply Z.gtb_lt; lia).
  reflexivity.
Qed.

Lemma liar_is_previous_witness_witness :
  exists w' l',
    trial_loop tape_two_then_zero 20 15 world0 locals0 = Done (w', l') /\
    composite_witness l' = 2 /\
    fermat_liar l' = 4 /\
    outcome_of l' = Composite 2 (Some 4).
Proof.
  apply (liar_is_previous_witness tape_two_then_zero 15 20 world0 1).
  - unfold INT_MAX. lia.
  - lia.
  - lia.
  - intros i Hi. destruct i as [|i]; [reflexivity | lia].
  - reflexivity.
Defined.

(** C3. When the trial of index [N] is the first to fail, the loop ends
    right after it: [N + 1] trials have run, [rand()] has been called
    [N + 1] times, and from the state reached the loop does nothing more,
    whatever is left of its budget. *)
Theorem failure_ends_trials
  (tape : nat -> Z) (p : Z) (fuel : nat) (w : world) (N : nat) :
  3 <= p <= INT_MAX ->
  (20 <= fuel)%nat ->
  (N < 20)%nat ->
  passes_before tape p (rng w) N ->
  fails_at tape p (rng w) N ->
  exists w' l',
    trial_loop tape fuel p w locals0 = Done (w', l') /\
    trial l' = Z.of_nat N + 1 /\
    rng w' = (rng w + N + 1)%nat /\
    forall more, trial_loop tape more p w' l' = Done (w', l').
Proof.
  intros Hp Hf HN Hpass Hfail.
  destruct (trial_loop_fails_at tape p fuel w N Hp Hf HN Hpass Hfail)
    as (w' & l' & Hrun & _ & Hrng & Htrial & Hcw & _).
  pose proof (drawn_range tape p (rng w + N) Hp) as Hx.
  exists w', l'. repeat split; try assumption; [lia|].
  intros more. rewrite trial_loop_unfold, Hcw.
  replace (drawn tape p (rng w + N) =? 0) with false
    by (symmetry; apply Z.eqb_neq; lia).
  now rewrite andb_false_r.
Qed.

Lemma failure_ends_trials_witness :
  exists w' l',
    trial_loop tape_zero 20 4 world0 locals0 = Done (w', l') /\
    trial l' = 1 /\
    rng w' = 1%nat /\
    forall more, trial_loop tape_zero more 4 w' l' = Done (w', l').
Proof.
  apply (failure_ends_trials tape_zero 4 20 world0 0).
  - unfold INT_MAX. lia.
  - lia.
  - lia.
  - intros i Hi. lia.
  - reflexivity.
Defined.

(** C4. When all the trials of index 0 to 19 pass, the loop ends after
    exactly 20 trials and 20 calls of [rand()], no composite witness is
    recorded, the outcome is [ProbablePrime] and the probable prime line is
    written. *)
Theorem twenty_passes_probable_prime
  (tape : nat -> Z) (p : Z) (fuel : nat) (w : world) :
  3 <= p <= INT_MAX ->
  (20 <= fuel)%nat ->
  passes_before tape p (rng w) 20 ->
  exists w' l',
    trial_loop tape fuel p w locals0 = Done (w', l') /\
    trial l' = 20 /\
    rng w' = (rng w + 20)%nat /\
    composite_witness l' = 0 /\
    outcome_of l' = ProbablePrime /\
    out (report p w' l')
    = (out w ++ dec p ++ " is a probable prime" ++ nl)%string.
Proof.
  intros Hp Hf Hall.
  destruct (trial_loop_all_pass tape p fuel w Hp Hf Hall)
    as (w' & l' & Hrun & Hout & Hrng & Htrial & Hcw & _).
  assert (outcome_of l' = ProbablePrime) as Ho
    by (unfold outcome_of; now rewrite Hcw).
  exists w', l'. repeat split; try assumption.
  rewrite report_value, Ho, Hout by lia. cbn [out line_of].
  now rewrite append_assoc.
Qed.

Lemma twenty_passes_probable_prime_witness :
  exists w' l',
    trial_loop tape_zero 20 7 world0 locals0 = Done (w', l') /\
    trial l' = 20 /\
    rng w' = 20%nat /\
    composite_witness l' = 0 /\
    outcome_of l' = ProbablePrime /\
    out (report 7 w' l') = ("7 is a probable prime" ++ nl)%string.
Proof.
  apply (twenty_passes_probable_prime tape_zero 7 20 world0).
  - unfold INT_MAX. lia.
  - lia.
  - intros i Hi. reflexivity.
Defined.

(** C5. When the trial of index 0 fails, the outcome is [Composite] with
    its witness and without a liar, and the line written has no liar
    clause. *)
Theorem first_trial_failure_no_liar
  (tape : nat -> Z) (p : Z) (fuel : nat) (w : world) :
  3 <= p <= INT_MAX ->
  (20 <= fuel)%nat ->
  congruent p (drawn tape p (rng w)) = false ->
  exists w' l',
    trial_loop tape fuel p w locals0 = Done (w', l') /\
    fermat_liar l' = 0 /\
    outcome_of l' = Composite (drawn tape p (rng w)) None /\
    out (report p w' l')
    = (out w ++ dec p ++ " is composite - " ++ dec (drawn tape p (rng w))
         ++ " is a composite witness" ++ nl)%string.
Proof.
  intros Hp Hf Hfail.
  destruct (trial_loop_fails_at tape p fuel w 0 Hp Hf ltac:(lia))
    as (w' & l' & Hrun & Hout & _ & _ & Hcw & Hfl).
  - intros i Hi. lia.
  - unfold fails_at. now rewrite Nat.add_0_r.
  - rewrite Nat.add_0_r in Hcw.
    pose proof (drawn_range tape p (rng w) Hp) as Hx.
    assert (outcome_of l' = Composite (drawn tape p (rng w)) None) as Ho.
    { unfold outcome_of. rewrite Hcw, Hfl.
      replace (drawn tape p (rng w) =? 0) with false
        by (symmetry; apply Z.eqb_neq; lia).
      reflexivity. }
    exists w', l'. repeat split; try assumption.
    rewrite report_value, Ho, Hout by lia. cbn [out line_of].
    now rewrite !append_assoc.
Qed.

Lemma first_trial_failure_no_liar_witness :
  exists w' l',
    trial_loop tape_zero 20 4 world0 locals0 = Done (w', l') /\
    fermat_liar l' = 0 /\
    outcome_of l' = Composite 2 None /\
    out (report 4 w' l')
    = ("4 is composite - 2 is a composite witness" ++ nl)%string.
Proof.
  apply (first_trial_failure_no_liar tape_zero 4 20 world0).
  - unfold INT_MAX. lia.
  - lia.
  - reflexivity.
Defined.

(** C10. After the loop of a candidate of the scan, [composite_witness] is
    0 exactly when all 20 trials passed, so the probable prime branch is
    taken exactly then; and [fermat_liar] is positive exactly when the
    first failing trial has an index above 0, so the liar clause is written
    exactly then. *)
Theorem sentinels_never_collide
  (tape : nat -> Z) (p : Z) (fuel : nat) (w : world) :
  3 <= p <= INT_MAX ->
  (20 <= fuel)%nat ->
  exists w' l',
    trial_loop tape fuel p w locals0 = Done (w', l') /\
    (composite_witness l' = 0 <-> passes_before tape p (rng w) 20) /\
    (outcome_of l' = ProbablePrime <-> passes_before tape p (rng w) 20) /\
    (fermat_liar l' > 0 <->
     exists N, (0 < N < 20)%nat /\
               passes_before tape p (rng w) N /\ fails_at tape p (rng w) N) /\
    ((exists x y, outcome_of l' = Composite x (Some y)) <->
     exists N, (0 < N < 20)%nat /\
               passes_before tape p (rng w) N /\ fails_at tape p (rng w) N).
Proof.
  intros Hp Hf.
  destruct (first_failure tape p (rng w) 20) as [N|] eqn:F.
  - apply first_failure_some in F. destruct F as (HN & Hpass & Hfail).
    destruct (trial_loop_fails_at tape p fuel w N Hp Hf HN Hpass Hfail)
      as (w' & l' & Hrun & _ & _ & _ & Hcw & Hfl).
    pose proof (drawn_range tape p (rng w + N) Hp) as Hx.
    assert (~ passes_before tape p (rng w) 20) as Hnot.
    { intros Hall. specialize (Hall N HN). unfold fails_at in Hfail.
      congruence. }
    assert ((composite_witness l' =? 0) = false) as Hcz
      by (apply Z.eqb_neq; lia).
    exists w', l'. split; [exact Hrun|].
    split; [split; [lia | contradiction]|].
    split.
    { unfold outcome_of. rewrite Hcz.
      split; [discriminate | contradiction]. }
    destruct N as [|j].
    + assert (~ exists M, (0 < M < 20)%nat /\
                passes_before tape p (rng w) M /\ fails_at tape p (rng w) M)
        as Hno.
      { intros (M & HM & HpM & HfM).
        pose proof (first_failure_unique tape p (rng w) 0 M
                      Hpass Hfail HpM HfM).
        lia. }
      split; [split; [lia | contradiction]|].
      split; [|contradiction].
      intros (x & y & Ho). unfold outcome_of in Ho.
      rewrite Hcz, Hfl in Ho. discriminate.
    + pose proof (drawn_range tape p (rng w + j) Hp) as Hy.
      assert (exists M, (0 < M < 20)%nat /\
                passes_before tape p (rng w) M /\ fails_at tape p (rng w) M)
        as Hyes by (exists (S j); repeat split; [lia | lia | assumption..]).
      split; [split; [intros _; exact Hyes | lia]|].
      split; [intros _; exact Hyes|]. intros _.
      exists (composite_witness l'), (fermat_liar l').
      unfold outcome_of. rewrite Hcz.
      replace (fermat_liar l' >? 0) with true
        by (symmetry; apply Z.gtb_lt; lia).
      reflexivity.
  - pose proof (proj1 (first_failure_none tape p 20 (rng w)) F) as Hall.
    clear F. rename Hall into F.
    destruct (trial_loop_all_pass tape p fuel w Hp Hf F)
      as (w' & l' & Hrun & _ & _ & _ & Hcw & Hfl).
    assert (~ exists M, (0 < M < 20)%nat /\
              passes_before tape p (rng w) M /\ fails_at tape p (rng w) M)
      as Hno.
    { intros (M & HM & _ & HfM). unfold fails_at in HfM.
      rewrite (F M) in HfM by lia. discriminate. }
    exists w', l'. split; [exact Hrun|].
    split; [split; [intros _; exact F | intros _; exact Hcw]|].
    split.
    { unfold outcome_of. rewrite Hcw.
      split; [intros _; exact F | reflexivity]. }
    split; [split; [lia | contradiction]|].
    split; [|contradiction].
    intros (x & y & Ho). unfold outcome_of in Ho. rewrite Hcw in Ho.
    discriminate.
Qed.

Lemma sentinels_never_collide_witness :
  exists w' l',
    trial_loop tape_two_then_zero 20 15 world0 locals0 = Done (w', l') /\
    composite_witness l' <> 0 /\
    fermat_liar l' > 0.
Proof.
  destruct (sentinels_never_collide tape_two_then_zero 15 20 world0)
    as (w' & l' & Hrun & Hcw & _ & Hfl & _).
  - unfold INT_MAX. lia.
  - lia.
  - exists w', l'. split; [exact Hrun|]. split.
    + intros Hz. apply Hcw in Hz. specialize (Hz 1%nat ltac:(lia)).
      discriminate Hz.
    + apply Hfl. exists 1%nat. split; [lia|]. split.
      * intros i Hi. destruct i as [|i]; [reflexivity | lia].
      * reflexivity.
Defined.

(** C6. For a bound [max] that is a non-negative [int], the [for] loop ends
    and does what the specification's scanner does on the list 3, 4, ...,
    [max - 1]: it runs the trial loop on every integer of the list, in
    increasing order and skipping none, and writes one line for each; with
    [max = 20] there are 17 outcomes. *)
Theorem scan_visits_every_candidate
  (tape : nat -> Z) (max : Z) (fuel : nat) :
  0 <= max <= INT_MAX ->
  (20 <= fuel)%nat ->
  (Z.to_nat max <= fuel)%nat ->
  exists os w',
    fermat_main_upto tape max fuel = Done w' /\
    scan_list tape fuel (candidates max) world0 = Done (os, w') /\
    map fst os = candidates max /\
    List.length os = Z.to_nat (max - 3) /\
    (forall i, (i < Z.to_nat (max - 3))%nat ->
               nth i (map fst os) 0 = 3 + Z.of_nat i) /\
    out w' = render os /\
    (max = 20 -> List.length os = 17%nat).
Proof.
  intros Hmax Hin Hf.
  destruct (scan_loop_list tape max fuel Hmax Hin (Z.to_nat (max - 3)) fuel 3
              world0 ltac:(lia) eq_refl ltac:(lia))
    as (os & w' & Hs & Hl & Hm & Ho).
  assert (List.length os = Z.to_nat (max - 3)) as Hlen.
  { rewrite <- (length_map fst), Hm. apply upfrom_length. }
  exists os, w'. unfold fermat_main_upto, candidates.
  split; [exact Hs|]. split; [exact Hl|]. split; [exact Hm|].
  split; [exact Hlen|]. split.
  { intros i Hi. rewrite Hm. now apply upfrom_nth. }
  split; [exact Ho|].
  intros ->. rewrite Hlen. reflexivity.
Qed.

Lemma scan_visits_every_candidate_witness :
  exists os w',
    fermat_main_upto tape_zero 20 20 = Done w' /\
    map fst os
    = [3; 4; 5; 6; 7; 8; 9; 10; 11; 12; 13; 14; 15; 16; 17; 18; 19] /\
    List.length os = 17%nat /\
    out w' = render os.
Proof.
  destruct (scan_visits_every_candidate tape_zero 20 20)
    as (os & w' & Hrun & _ & Hm & Hlen & _ & Ho & _).
  - unfold INT_MAX. lia.
  - lia.
  - lia.
  - exists os, w'. repeat split; assumption.
Defined.

(** C9. The check is a function of [(p, a)] alone: what the GMP variables
    held before does not change its result, and running it a second time on
    the variables the first run left gives the same result again.  The
    program that shares [a], [e] and [r1] between all trials and the one
    that takes fresh variables for every trial end the same way, with the
    same output and the same number of calls of [rand()]. *)
Theorem shared_accumulators_unobservable (tape : nat -> Z) :
  (forall v v' p a, congruence_check v p a = congruence_check v' p a) /\
  (forall v p a,
      ('(_, v1) <- congruence_check v p a ;; congruence_check v1 p a)
      = congruence_check v p a) /\
  (forall max fuel,
      observe (fermat_main_upto tape max fuel)
      = observe (fermat_main_fresh_upto tape max fuel)).
Proof.
  split; [reflexivity|]. split.
  - intros v p a.
    rewrite (congruence_check_overwrites v Mpz.init).
    destruct (congruence_check Mpz.init p a) as [[c v1]| |] eqn:E;
      cbn [bind]; [|reflexivity..].
    now rewrite (congruence_check_overwrites v1 Mpz.init).
  - intros max fuel. apply lift_observe.
    unfold fermat_main_upto, fermat_main_fresh_upto.
    apply scan_loop_sim. split; reflexivity.
Qed.

(** * Beyond the claims *)

(** ** Faults and termination *)

Section Running.

Variable tape : nat -> Z.

(** One pass through the loop body for every candidate an [unsigned int]
    can hold from 3 on. *)
Lemma trial_body_value_uint (p : Z) (w : world) (l : locals) :
  3 <= p < UINT_MOD ->
  trial_body tape p w l
  = Done (mkWorld (bigs_after p (drawn tape p (rng w))) (S (rng w)) (out w),
          if congruent p (drawn tape p (rng w))
          then mkLocals (trial l + 1) (composite_witness l) (fermat_liar l)
                 (drawn tape p (rng w))
          else mkLocals (trial l + 1) (to_int (drawn tape p (rng w)))
                 (to_int (a1 l)) (drawn tape p (rng w))).
Proof.
  intros Hp. unfold trial_body, rand. cbn [bigs rng out].
  rewrite sample_witness by exact Hp.
  cbn [bind]. rewrite congruence_check_value by lia. cbn [bind].
  unfold drawn.
  destruct (congruent p (witness_for p (tape (rng w)))); reflexivity.
Qed.

Lemma trial_loop_total (p : Z) :
  3 <= p < UINT_MOD ->
  forall (n fuel : nat) (w : world) (l : locals),
    n = Z.to_nat (20 - trial l) ->
    (n <= fuel)%nat ->
    exists w' l', trial_loop tape fuel p w l = Done (w', l').
Proof.
  intros Hp. induction n as [|n IH]; intros fuel w l Hn Hf;
    rewrite trial_loop_unfold.
  - replace (trial l <? 20) with false
      by (symmetry; apply Z.ltb_ge; lia).
    now exists w, l.
  - destruct ((trial l <? 20) && (composite_witness l =? 0));
      [|now exists w, l].
    destruct fuel as [|fuel]; [lia|].
    rewrite trial_body_value_uint by exact Hp. cbn [bind].
    apply IH; [|lia].
    destruct (congruent p (drawn tape p (rng w))); cbn [trial]; lia.
Qed.

Lemma scan_loop_total (max : Z) (inner : nat) :
  (20 <= inner)%nat ->
  forall (n fuel : nat) (p : Z) (w : world),
    3 <= p ->
    n = Z.to_nat (to_uint max - p) ->
    (n <= fuel)%nat ->
    exists w', scan_loop tape fuel inner max p w = Done w'.
Proof.
  intros Hin. pose proof (Z.mod_pos_bound max UINT_MOD eq_refl) as Hm.
  fold (to_uint max) in Hm.
  induction n as [|n IH]; intros fuel p w Hp Hn Hf;
    rewrite scan_loop_unfold.
  - replace (p <? to_uint max) with false
      by (symmetry; apply Z.ltb_ge; lia).
    now exists w.
  - replace (p <? to_uint max) with true
      by (symmetry; apply Z.ltb_lt; lia).
    destruct fuel as [|fuel]; [lia|].
    destruct (trial_loop_total p ltac:(lia) 20 inner w locals0
                eq_refl Hin) as (w1 & l & Hrun).
    unfold candidate_body. rewrite Hrun. cbn [bind].
    rewrite to_uint_small by lia.
    apply IH; lia.
Qed.

End Running.

(** X1. Whatever [int] the bound [max] is and whatever [rand()] returns,
    [main] runs to its end: no pass through the loop body divides by zero
    and both loops stop, the inner one within 20 passes and the outer one
    within [max] (read as unsigned) passes. *)
Theorem main_runs_to_end (tape : nat -> Z) (max : Z) (fuel : nat) :
  (20 <= fuel)%nat ->
  (Z.to_nat (to_uint max) <= fuel)%nat ->
  exists w', fermat_main_upto tape max fuel = Done w'.
Proof.
  intros Hin Hf. unfold fermat_main_upto.
  apply (scan_loop_total tape max fuel Hin (Z.to_nat (to_uint max - 3)));
    [lia | reflexivity | lia].
Qed.

Lemma main_runs_to_end_witness :
  exists w', fermat_main_upto tape_two_then_zero 6 20 = Done w'.
Proof.
  apply (main_runs_to_end tape_two_then_zero 6 20).
  - lia.
  - vm_compute. lia.
Defined.

(** X2. Among the values an [unsigned int] candidate can take, the pass
    through the loop body divides by zero for exactly two: [p = 2], in
    [rand() % (p - 2)], and [p = 0], in [mpz_mod_ui]. *)
Theorem trial_body_fault_iff
  (tape : nat -> Z) (p : Z) (w : world) (l : locals) :
  0 <= p < UINT_MOD ->
  trial_body tape p w l = Fault <-> p = 0 \/ p = 2.
Proof.
  intros Hp.
  assert (p = 0 \/ p = 1 \/ p = 2 \/ 3 <= p) as [->|[->|[->|H3]]] by lia.
  - split; [now left | reflexivity].
  - split; [discriminate | lia].
  - split; [now right | reflexivity].
  - rewrite trial_body_value_uint by lia.
    split; [discriminate | lia].
Qed.

Lemma trial_body_fault_iff_witness :
  trial_body tape_zero 2 world0 locals0 = Fault <-> 2 = 0 \/ 2 = 2.
Proof.
  apply (trial_body_fault_iff tape_zero 2 world0 locals0).
  unfold UINT_MOD. lia.
Defined.

(** ** Calls of [rand()] and lines written *)

Lemma newlines_app (s t : string) :
  newlines (s ++ t) = (newlines s + newlines t)%nat.
Proof.
  induction s as [|c s IH]; cbn [append newlines]; [reflexivity|].
  rewrite IH. lia.
Qed.

Lemma newlines_uint (d : Decimal.uint) :
  newlines (NilEmpty.string_of_uint d) = 0%nat.
Proof. induction d; cbn [NilEmpty.string_of_uint newlines]; auto. Qed.

Lemma newlines_dec (x : Z) : newlines (dec x) = 0%nat.
Proof.
  unfold dec, NilZero.string_of_int, NilZero.string_of_uint.
  destruct (Z.to_int x) as [d|d]; destruct d;
    cbn [newlines]; rewrite ?newlines_uint; try reflexivity;
    apply (newlines_uint (_ d)).
Qed.

Lemma newlines_line_of (p : Z) (o : TestOutcome) :
  newlines (line_of p o) = 0%nat.
Proof.
  destruct o as [|x [y|]]; cbn [line_of];
    rewrite ?newlines_app, ?newlines_dec; reflexivity.
Qed.

Lemma newlines_render (os : list (Z * TestOutcome)) :
  newlines (render os) = List.length os.
Proof.
  induction os as [|[p o] os IH]; cbn [render List.length]; [reflexivity|].
  rewrite !newlines_app, newlines_line_of, IH. reflexivity.
Qed.

Lemma upfrom_In (n : nat) (p x : Z) :
  In x (upfrom p n) -> p <= x < p + Z.of_nat n.
Proof.
  revert p. induction n as [|n IH]; intros p; cbn [upfrom In]; [tauto|].
  intros [<-|H]; [lia|]. apply IH in H. lia.
Qed.

Section Counting.

Variable tape : nat -> Z.

(** The scanner on a list, one candidate at a time. *)
Lemma scan_list_cons (fuel : nat) (p : Z) (ps : list Z) (w w' : world)
  (os : list (Z * TestOutcome)) :
  scan_list tape fuel (p :: ps) w = Done (os, w') ->
  exists w1 l os',
    trial_loop tape fuel p w locals0 = Done (w1, l) /\
    scan_list tape fuel ps (report p w1 l) = Done (os', w') /\
    os = (p, outcome_of l) :: os'.
Proof.
  cbn [scan_list].
  destruct (trial_loop tape fuel p w locals0) as [[w1 l]| |];
    cbn [bind]; try discriminate.
  destruct (scan_list tape fuel ps (report p w1 l)) as [[os' w2]| |] eqn:E;
    cbn [bind]; try discriminate.
  intros H. injection H as <- <-. exists w1, l, os'.
  repeat split. exact E.
Qed.

Lemma trial_loop_counts (p : Z) (fuel : nat) (w : world) :
  3 <= p <= INT_MAX ->
  (20 <= fuel)%nat ->
  exists w' l',
    trial_loop tape fuel p w locals0 = Done (w', l') /\
    out w' = out w /\
    1 <= trial l' <= 20 /\
    rng w' = (rng w + Z.to_nat (trial l'))%nat /\
    (trial l' < 20 -> composite_witness l' <> 0).
Proof.
  intros Hp Hf.
  destruct (trial_loop_start tape p fuel w Hp Hf)
    as (w' & l' & Hrun & Hout & Hstop).
  exists w', l'. split; [exact Hrun|]. split; [exact Hout|].
  unfold stops_as in Hstop.
  destruct (first_failure tape p (rng w) 20) as [i|] eqn:F;
    cbn [trial locals0] in Hstop; destruct Hstop as (H1 & H2 & H3 & _).
  - apply first_failure_some in F. destruct F as (Hi & _ & _).
    pose proof (drawn_range tape p (rng w + i) Hp) as Hx.
    repeat split; lia.
  - repeat split; lia.
Qed.

Lemma scan_list_rng (fuel : nat) (ps : list Z) :
  (20 <= fuel)%nat ->
  Forall (fun p => 3 <= p <= INT_MAX) ps ->
  forall (w w' : world) (os : list (Z * TestOutcome)),
    scan_list tape fuel ps w = Done (os, w') ->
    (rng w + List.length ps <= rng w' <= rng w + 20 * List.length ps)%nat.
Proof.
  intros Hf. induction ps as [|p ps IH]; intros Hall w w' os Hrun.
  - cbn [scan_list] in Hrun. injection Hrun as _ <-.
    cbn [List.length]. lia.
  - apply Forall_cons_iff in Hall. destruct Hall as [Hp Hall].
    apply scan_list_cons in Hrun.
    destruct Hrun as (w1 & l & os' & Hloop & Hrest & _).
    destruct (trial_loop_counts p fuel w Hp Hf)
      as (w1' & l' & Hloop' & _ & Ht & Hr & _).
    rewrite Hloop in Hloop'. injection Hloop' as <- <-.
    apply (IH Hall) in Hrest.
    rewrite report_value in Hrest by lia. cbn [rng] in Hrest.
    cbn [List.length]. lia.
Qed.

End Counting.

(** X3. The loop of a candidate of the scan writes nothing, runs at least
    1 and at most 20 trials, calls [rand()] once for each trial and for
    nothing else, and stops before the twentieth trial only with a
    composite witness recorded. *)
Theorem trial_loop_draws
  (tape : nat -> Z) (p : Z) (fuel : nat) (w : world) :
  3 <= p <= INT_MAX ->
  (20 <= fuel)%nat ->
  exists w' l',
    trial_loop tape fuel p w locals0 = Done (w', l') /\
    out w' = out w /\
    1 <= trial l' <= 20 /\
    rng w' = (rng w + Z.to_nat (trial l'))%nat /\
    (trial l' < 20 -> composite_witness l' <> 0).
Proof. intros Hp Hf. now apply trial_loop_counts. Qed.

Lemma trial_loop_draws_witness :
  exists w' l',
    trial_loop tape_two_then_zero 20 15 world0 locals0 = Done (w', l') /\
    out w' = out world0 /\
    1 <= trial l' <= 20 /\
    rng w' = (rng world0 + Z.to_nat (trial l'))%nat /\
    (trial l' < 20 -> composite_witness l' <> 0).
Proof.
  apply (trial_loop_draws tape_two_then_zero 15 20 world0).
  - unfold INT_MAX. lia.
  - lia.
Defined.

(** X4. A scan up to [max] calls [rand()] at least once and at most 20
    times for each of its [max - 3] candidates, and writes exactly
    [max - 3] ends of line: no line of the report is broken and none is
    missing. *)
Theorem main_calls_and_lines (tape : nat -> Z) (max : Z) (fuel : nat) :
  3 <= max <= INT_MAX ->
  (20 <= fuel)%nat ->
  (Z.to_nat max <= fuel)%nat ->
  exists w',
    fermat_main_upto tape max fuel = Done w' /\
    max - 3 <= Z.of_nat (rng w') <= 20 * (max - 3) /\
    Z.of_nat (newlines (out w')) = max - 3.
Proof.
  intros Hmax Hin Hf.
  destruct (scan_loop_list tape max fuel ltac:(lia) Hin
              (Z.to_nat (max - 3)) fuel 3 world0 ltac:(lia) eq_refl
              ltac:(lia)) as (os & w' & Hs & Hl & Hm & Ho).
  exists w'. split; [exact Hs|].
  assert (List.length os = Z.to_nat (max - 3)) as Hlen
    by (rewrite <- (length_map fst), Hm; apply upfrom_length).
  split.
  - apply scan_list_rng in Hl; [|exact Hin|].
    + rewrite upfrom_length in Hl. cbn [rng world0] in Hl. lia.
    + apply Forall_forall. intros x Hx. apply upfrom_In in Hx. lia.
  - rewrite Ho. cbn [out world0 append].
    rewrite newlines_render, Hlen. lia.
Qed.

Lemma main_calls_and_lines_witness :
  exists w',
    fermat_main_upto tape_zero 8 20 = Done w' /\
    8 - 3 <= Z.of_nat (rng w') <= 20 * (8 - 3) /\
    Z.of_nat (newlines (out w')) = 8 - 3.
Proof.
  apply (main_calls_and_lines tape_zero 8 20).
  - unfold INT_MAX. lia.
  - lia.
  - lia.
Defined.

(** ** Fermat's little theorem, from MathComp's [fermat_little] *)

Module FermatLittle.

#[local] Set Warnings "-notation-overridden,-hiding-delimiting-key".
Import ssreflect ssrfun ssrbool eqtype ssrnat div prime binomial.
#[local] Set Warnings "-rewrite-rw".

Lemma expn_pow (a n : nat) : expn a n = Nat.pow a n.
Proof. by elim: n => [|n IH] //=; rewrite expnS IH. Qed.

Lemma prime_of_Zprime (n : nat) : Z.prime (Z.of_nat n) -> prime n.
Proof.
  move=> Hp. apply/primeP; split.
  - apply/ltP. case: Hp => H1 _. lia.
  - move=> d /dvdnP [k Hk].
    have Hd : (Z.of_nat d | Z.of_nat n).
    { exists (Z.of_nat k). rewrite Hk mulnE. lia. }
    case: (Z.divide_prime_r _ _ Hp Hd) => [H|[H|[H|H]]].
    + case: Hp => H1 _. lia.
    + lia.
    + have -> : d = 1%N by lia. by [].
    + have -> : d = n by lia. by rewrite eqxx orbT.
Qed.

Lemma little_nat (a p : nat) :
  prime p -> exists k, Nat.pow a p = Nat.add a (Nat.mul k p).
Proof.
  move=> Hp.
  have Hle : (a <= a ^ p)%N.
  { case: a => [|a] //. rewrite -{1}(expn1 a.+1).
    apply: leq_pexp2l => //. exact: prime_gt0. }
  have /eqP := fermat_little a Hp.
  rewrite (eqn_mod_dvd _ Hle) => /dvdnP [k Hk].
  exists k. rewrite -expn_pow plusE multE.
  have := subnK Hle. rewrite Hk addnC. by move=> <-.
Qed.

End FermatLittle.

Lemma fermat_little_Z (p a : Z) :
  Z.prime p -> 0 <= a -> (a ^ p - a) mod p = 0.
Proof.
  intros Hp Ha.
  assert (1 < p) as H1 by (destruct Hp; assumption).
  rewrite <- (Z2Nat.id p) in * by lia.
  rewrite <- (Z2Nat.id a) by lia.
  destruct (FermatLittle.little_nat (Z.to_nat a) (Z.to_nat p)
              (FermatLittle.prime_of_Zprime _ Hp)) as [k Hk].
  rewrite <- Nat2Z.inj_pow, Hk, Nat2Z.inj_add, Nat2Z.inj_mul.
  replace (Z.of_nat (Z.to_nat a) + Z.of_nat k * Z.of_nat (Z.to_nat p)
           - Z.of_nat (Z.to_nat a))
    with (Z.of_nat k * Z.of_nat (Z.to_nat p)) by lia.
  apply Z_mod_mult.
Qed.

Lemma congruent_prime (p a : Z) :
  Z.prime p -> 0 <= a -> congruent p a = true.
Proof.
  intros Hp Ha. unfold congruent. apply Z.eqb_eq.
  now apply fermat_little_Z.
Qed.

(** ** What the verdicts mean *)

Section Verdict.

Variable tape : nat -> Z.

(** When every possible witness satisfies the congruence, every trial
    passes, whatever is drawn. *)
Lemma all_congruent_passes (p : Z) (k n : nat) :
  3 <= p <= INT_MAX ->
  (forall a, 2 <= a <= p - 1 -> congruent p a = true) ->
  passes_before tape p k n.
Proof.
  intros Hp Hall i _. apply Hall. now apply drawn_range.
Qed.

Lemma probable_prime_line (p : Z) (fuel : nat) (w : world) :
  3 <= p <= INT_MAX ->
  (20 <= fuel)%nat ->
  (forall a, 2 <= a <= p - 1 -> congruent p a = true) ->
  exists w' l',
    trial_loop tape fuel p w locals0 = Done (w', l') /\
    outcome_of l' = ProbablePrime /\
    out (report p w' l')
    = (out w ++ dec p ++ " is a probable prime" ++ nl)%string.
Proof.
  intros Hp Hf Hall.
  destruct (trial_loop_all_pass tape p fuel w Hp Hf
              (all_congruent_passes p (rng w) 20 Hp Hall))
    as (w' & l' & Hrun & Hout & _ & _ & Hcw & _).
  assert (outcome_of l' = ProbablePrime) as Ho
    by (unfold outcome_of; now rewrite Hcw).
  exists w', l'. repeat split; try assumption.
  rewrite report_value, Ho, Hout by lia. cbn [out line_of].
  now rewrite append_assoc.
Qed.

(** What the sentinels hold when the loop has stopped. *)
Lemma verdict_certificate (p : Z) (fuel : nat) (w w' : world) (l' : locals) :
  3 <= p <= INT_MAX ->
  (20 <= fuel)%nat ->
  trial_loop tape fuel p w locals0 = Done (w', l') ->
  composite_witness l' <> 0 ->
  (2 <= composite_witness l' <= p - 1 /\
   congruent p (composite_witness l') = false) /\
  (fermat_liar l' > 0 ->
   2 <= fermat_liar l' <= p - 1 /\ congruent p (fermat_liar l') = true).
Proof.
  intros Hp Hf Hrun Hcw.
  destruct (trial_loop_start tape p fuel w Hp Hf)
    as (w1 & l1 & Hrun' & _ & Hstop).
  rewrite Hrun in Hrun'. injection Hrun' as <- <-.
  unfold stops_as in Hstop.
  destruct (first_failure tape p (rng w) 20) as [i|] eqn:F;
    cbn [trial a1 fermat_liar locals0] in Hstop;
    destruct Hstop as (_ & _ & H3 & H4); [|contradiction].
  apply first_failure_some in F. destruct F as (_ & Hpass & Hfail).
  rewrite H3, H4. split.
  - split; [now apply drawn_range | exact Hfail].
  - destruct i as [|j]; [lia|]. intros _.
    split; [now apply drawn_range | apply Hpass; lia].
Qed.

End Verdict.

(** X5. A prime candidate is never called composite: whatever [rand()]
    returns, the loop of a prime [p] of the scan ends in [ProbablePrime]
    and the probable prime line is written. *)
Theorem prime_reported_probable_prime
  (tape : nat -> Z) (p : Z) (fuel : nat) (w : world) :
  Z.prime p ->
  3 <= p <= INT_MAX ->
  (20 <= fuel)%nat ->
  exists w' l',
    trial_loop tape fuel p w locals0 = Done (w', l') /\
    outcome_of l' = ProbablePrime /\
    out (report p w' l')
    = (out w ++ dec p ++ " is a probable prime" ++ nl)%string.
Proof.
  intros Hprime Hp Hf. apply probable_prime_line; try assumption.
  intros a Ha. apply congruent_prime; [exact Hprime | lia].
Qed.

Lemma prime_reported_probable_prime_witness :
  exists w' l',
    trial_loop tape_two_then_zero 20 3 world0 locals0 = Done (w', l') /\
    outcome_of l' = ProbablePrime /\
    out (report 3 w' l') = ("3 is a probable prime" ++ nl)%string.
Proof.
  apply (prime_reported_probable_prime tape_two_then_zero 3 20 world0).
  - exact Z.prime_3.
  - unfold INT_MAX. lia.
  - lia.
Defined.

(** X6. A composite verdict carries its proof: the composite witness
    reported lies in [[2, p - 1]] and fails the congruence, so [p] is not
    prime; and a fermat liar reported lies in [[2, p - 1]] and satisfies the
    congruence although [p] is not prime. *)
Theorem composite_verdict_sound
  (tape : nat -> Z) (p : Z) (fuel : nat) (w w' : world) (l' : locals) :
  3 <= p <= INT_MAX ->
  (20 <= fuel)%nat ->
  trial_loop tape fuel p w locals0 = Done (w', l') ->
  composite_witness l' <> 0 ->
  ~ Z.prime p /\
  2 <= composite_witness l' <= p - 1 /\
  (composite_witness l' ^ p - composite_witness l') mod p <> 0 /\
  (fermat_liar l' > 0 ->
   2 <= fermat_liar l' <= p - 1 /\
   (fermat_liar l' ^ p - fermat_liar l') mod p = 0).
Proof.
  intros Hp Hf Hrun Hcw.
  destruct (verdict_certificate tape p fuel w w' l' Hp Hf Hrun Hcw)
    as ((Hx & Hfail) & Hliar).
  split.
  { intros Hprime.
    rewrite (congruent_prime p _ Hprime) in Hfail by lia. discriminate. }
  split; [exact Hx|]. split.
  { unfold congruent in Hfail. now apply Z.eqb_neq. }
  intros Hfl. destruct (Hliar Hfl) as (Hy & Hpass).
  split; [exact Hy|]. unfold congruent in Hpass. now apply Z.eqb_eq.
Qed.

Lemma composite_verdict_sound_witness :
  ~ Z.prime 15 /\
  2 <= 2 <= 15 - 1 /\
  (2 ^ 15 - 2) mod 15 <> 0 /\
  (4 > 0 -> 2 <= 4 <= 15 - 1 /\ (4 ^ 15 - 4) mod 15 = 0).
Proof.
  apply (composite_verdict_sound tape_two_then_zero 15 20 world0
           (mkWorld (bigs_after 15 2) 2%nat EmptyString)
           (mkLocals 2 2 4 2)).
  - unfold INT_MAX. lia.
  - lia.
  - reflexivity.
  - discriminate.
Defined.

Section ScanVerdicts.

Variable tape : nat -> Z.

Lemma outcome_sound (p : Z) (fuel : nat) (w w' : world) (l' : locals) :
  3 <= p <= INT_MAX ->
  (20 <= fuel)%nat ->
  trial_loop tape fuel p w locals0 = Done (w', l') ->
  sound_verdict p (outcome_of l') /\
  (Z.prime p -> outcome_of l' = ProbablePrime).
Proof.
  intros Hp Hf Hrun. unfold outcome_of.
  destruct (Z.eqb_spec (composite_witness l') 0) as [Hz|Hnz].
  - split; [exact I | reflexivity].
  - destruct (verdict_certificate tape p fuel w w' l' Hp Hf Hrun Hnz)
      as ((Hx & Hfail) & Hliar).
    assert (~ Z.prime p) as Hnp.
    { intros Hprime.
      rewrite (congruent_prime p _ Hprime) in Hfail by lia. discriminate. }
    split; [|contradiction].
    cbn [sound_verdict]. split; [exact Hnp|]. split; [exact Hx|].
    split; [unfold congruent in Hfail; now apply Z.eqb_neq|].
    destruct (Z.gtb_spec (fermat_liar l') 0) as [Hpos|_]; [|exact I].
    destruct (Hliar ltac:(lia)) as (Hy & Hpass).
    split; [exact Hy|]. unfold congruent in Hpass. now apply Z.eqb_eq.
Qed.

Lemma scan_list_sound (fuel : nat) (ps : list Z) :
  (20 <= fuel)%nat ->
  Forall (fun p => 3 <= p <= INT_MAX) ps ->
  forall (w w' : world) (os : list (Z * TestOutcome)),
    scan_list tape fuel ps w = Done (os, w') ->
    Forall (fun po => sound_verdict (fst po) (snd po) /\
                      (Z.prime (fst po) -> snd po = ProbablePrime)) os.
Proof.
  intros Hf. induction ps as [|p ps IH]; intros Hall w w' os Hrun.
  - cbn [scan_list] in Hrun. injection Hrun as <- _. constructor.
  - apply Forall_cons_iff in Hall. destruct Hall as [Hp Hall].
    apply scan_list_cons in Hrun.
    destruct Hrun as (w1 & l & os' & Hloop & Hrest & ->).
    constructor; [|exact (IH Hall _ _ _ Hrest)].
    cbn [fst snd]. exact (outcome_sound p fuel w w1 l Hp Hf Hloop).
Qed.

Lemma scan_list_snoc (fuel : nat) (q : Z) (ps : list Z) :
  forall (w w1 w2 : world) (os : list (Z * TestOutcome)) (l : locals),
    scan_list tape fuel ps w = Done (os, w1) ->
    trial_loop tape fuel q w1 locals0 = Done (w2, l) ->
    scan_list tape fuel (ps ++ [q]) w
    = Done (os ++ [(q, outcome_of l)], report q w2 l).
Proof.
  induction ps as [|p ps IH]; intros w w1 w2 os l Hrun Hq.
  - cbn [scan_list] in Hrun. injection Hrun as <- <-.
    cbn [app scan_list]. rewrite Hq. reflexivity.
  - apply scan_list_cons in Hrun.
    destruct Hrun as (w3 & l3 & os' & Hloop & Hrest & ->).
    cbn [app scan_list]. rewrite Hloop. cbn [bind].
    rewrite (IH _ _ _ _ _ Hrest Hq). reflexivity.
Qed.

End ScanVerdicts.

Lemma upfrom_snoc (n : nat) (p : Z) :
  upfrom p (S n) = upfrom p n ++ [p + Z.of_nat n].
Proof.
  revert p. induction n as [|n IH]; intros p.
  - cbn [upfrom app]. now rewrite Z.add_0_r.
  - change (upfrom p (S (S n))) with (p :: upfrom (p + 1) (S n)).
    rewrite IH. cbn [upfrom app]. do 3 f_equal. lia.
Qed.

(** X7. In a whole scan every verdict is right in the sense a user reads
    it: each composite line names a witness in [[2, p - 1]] that fails the
    congruence for a [p] that is not prime, each liar named satisfies the
    congruence, and every prime below [max] gets the probable prime line. *)
Theorem scan_verdicts_sound (tape : nat -> Z) (max : Z) (fuel : nat) :
  3 <= max <= INT_MAX ->
  (20 <= fuel)%nat ->
  (Z.to_nat max <= fuel)%nat ->
  exists os w',
    fermat_main_upto tape max fuel = Done w' /\
    out w' = render os /\
    map fst os = candidates max /\
    Forall (fun po => sound_verdict (fst po) (snd po) /\
                      (Z.prime (fst po) -> snd po = ProbablePrime)) os.
Proof.
  intros Hmax Hin Hf.
  destruct (scan_loop_list tape max fuel ltac:(lia) Hin
              (Z.to_nat (max - 3)) fuel 3 world0 ltac:(lia) eq_refl
              ltac:(lia)) as (os & w' & Hs & Hl & Hm & Ho).
  exists os, w'. split; [exact Hs|]. split; [exact Ho|].
  split; [exact Hm|].
  apply (scan_list_sound tape fuel _ Hin) in Hl; [exact Hl|].
  apply Forall_forall. intros x Hx. apply upfrom_In in Hx. lia.
Qed.

Lemma scan_verdicts_sound_witness :
  exists os w',
    fermat_main_upto tape_zero 8 20 = Done w' /\
    out w' = render os /\
    map fst os = [3; 4; 5; 6; 7] /\
    Forall (fun po => sound_verdict (fst po) (snd po) /\
                      (Z.prime (fst po) -> snd po = ProbablePrime)) os.
Proof.
  apply (scan_verdicts_sound tape_zero 8 20).
  - unfold INT_MAX. lia.
  - lia.
  - lia.
Defined.

(** X8. Scanning one candidate further only adds to what was done: the run
    up to [max + 1] is the run up to [max] followed by the body of the
    [for] loop on the candidate [max], and its output is the output up to
    [max] with one more line. *)
Theorem main_upto_succ (tape : nat -> Z) (max : Z) (fuel : nat) :
  3 <= max < INT_MAX ->
  (20 <= fuel)%nat ->
  (Z.to_nat (max + 1) <= fuel)%nat ->
  exists w1 w2 o,
    fermat_main_upto tape max fuel = Done w1 /\
    candidate_body tape fuel max w1 = Done w2 /\
    fermat_main_upto tape (max + 1) fuel = Done w2 /\
    out w2 = (out w1 ++ line_of max o ++ nl)%string.
Proof.
  intros Hmax Hin Hf.
  destruct (scan_loop_list tape max fuel ltac:(lia) Hin
              (Z.to_nat (max - 3)) fuel 3 world0 ltac:(lia) eq_refl
              ltac:(lia)) as (os & w1 & Hs & Hl & _ & _).
  destruct (scan_loop_list tape (max + 1) fuel ltac:(lia) Hin
              (Z.to_nat (max + 1 - 3)) fuel 3 world0 ltac:(lia) eq_refl
              ltac:(lia)) as (os' & w2 & Hs' & Hl' & _ & _).
  destruct (trial_loop_start tape max fuel w1 ltac:(lia) Hin)
    as (w3 & l & Hloop & Hout & _).
  replace (Z.to_nat (max + 1 - 3)) with (S (Z.to_nat (max - 3))) in Hl'
    by lia.
  rewrite upfrom_snoc in Hl'.
  replace (3 + Z.of_nat (Z.to_nat (max - 3))) with max in Hl' by lia.
  rewrite (scan_list_snoc tape fuel max _ _ _ _ _ _ Hl Hloop) in Hl'.
  injection Hl' as _ <-.
  exists w1, (report max w3 l), (outcome_of l).
  unfold fermat_main_upto, candidate_body. rewrite Hloop. cbn [bind].
  repeat split; try assumption.
  rewrite report_value, Hout by lia. reflexivity.
Qed.

Lemma main_upto_succ_witness :
  exists w1 w2 o,
    fermat_main_upto tape_zero 5 20 = Done w1 /\
    candidate_body tape_zero 20 5 w1 = Done w2 /\
    fermat_main_upto tape_zero (5 + 1) 20 = Done w2 /\
    out w2 = (out w1 ++ line_of 5 o ++ nl)%string.
Proof.
  apply (main_upto_succ tape_zero 5 20).
  - unfold INT_MAX. lia.
  - lia.
  - lia.
Defined.

(** ** Which witnesses can be drawn *)

Lemma witness_for_onto (p a : Z) :
  3 <= p < UINT_MOD -> 2 <= a <= p - 1 -> witness_for p (a - 2) = a.
Proof.
  intros Hp Ha. unfold witness_for.
  rewrite (to_uint_small (p - 2)), (to_uint_small (a - 2)) by lia.
  rewrite (Z.mod_small (a - 2)) by lia.
  rewrite to_uint_small; lia.
Qed.



(** X10. A candidate of the scan gets the probable prime verdict on every
    tape exactly when every [a] of [[2, p - 1]] satisfies the congruence:
    one [a] that fails it can be drawn, and then [p] is called
    composite. *)
Theorem probable_prime_on_every_tape_iff (p : Z) (fuel : nat) :
  3 <= p <= INT_MAX ->
  (20 <= fuel)%nat ->
  (forall tape w, exists w' l',
      trial_loop tape fuel p w locals0 = Done (w', l') /\
      outcome_of l' = ProbablePrime)
  <->
  (forall a, 2 <= a <= p - 1 -> (a ^ p - a) mod p = 0).
Proof.
  intros Hp Hf. split.
  - intros Hall a Ha.
    destruct (Hall (tape_const (a - 2)) world0) as (w' & l' & Hrun & Ho).
    destruct (congruent p a) eqn:E; [now apply Z.eqb_eq|].
    assert (drawn (tape_const (a - 2)) p 0 = a) as Hd
      by (apply witness_for_onto; unfold INT_MAX, UINT_MOD in *; lia).
    destruct (trial_loop_fails_at (tape_const (a - 2)) p fuel world0 0
                Hp Hf ltac:(lia)) as (w1 & l1 & Hrun1 & _ & _ & _ & Hcw & _).
    + intros i Hi. lia.
    + unfold fails_at. cbn [rng world0 Nat.add]. now rewrite Hd.
    + rewrite Hrun in Hrun1. injection Hrun1 as <- <-.
      cbn [rng world0 Nat.add] in Hcw. rewrite Hd in Hcw.
      unfold outcome_of in Ho. rewrite Hcw in Ho.
      destruct (Z.eqb_spec a 0); [lia | discriminate].
  - intros Hall tape w.
    destruct (probable_prime_line tape p fuel w Hp Hf)
      as (w' & l' & Hrun & Ho & _).
    + intros a Ha. apply Z.eqb_eq. now apply Hall.
    + now exists w', l'.
Qed.

Lemma probable_prime_on_every_tape_iff_witness :
  (forall tape w, exists w' l',
      trial_loop tape 20 4 w locals0 = Done (w', l') /\
      outcome_of l' = ProbablePrime)
  <->
  (forall a, 2 <= a <= 4 - 1 -> (a ^ 4 - a) mod 4 = 0).
Proof.
  apply (probable_prime_on_every_tape_iff 4 20).
  - unfold INT_MAX. lia.
  - lia.
Defined.

(** ** The Carmichael number of the header comment *)

Lemma prime_11 : Z.prime 11.
Proof.
  split; [lia|]. intros n Hn [k Hk].
  assert (n = 2 \/ n = 3 \/ n = 4 \/ n = 5 \/ n = 6 \/ n = 7 \/ n = 8 \/
          n = 9 \/ n = 10) as H by lia.
  repeat (destruct H as [->|H]; [lia|]). subst n. lia.
Qed.

Lemma prime_17 : Z.prime 17.
Proof.
  split; [lia|]. intros n Hn [k Hk].
  assert (n = 2 \/ n = 3 \/ n = 4 \/ n = 5 \/ n = 6 \/ n = 7 \/ n = 8 \/
          n = 9 \/ n = 10 \/ n = 11 \/ n = 12 \/ n = 13 \/ n = 14 \/
          n = 15 \/ n = 16) as H by lia.
  repeat (destruct H as [->|H]; [lia|]). subst n. lia.
Qed.

(** [a^n = a] modulo a prime [q] for every [n = 1 + k (q - 1)]. *)
Lemma pow_cycle (q a : Z) (k : nat) :
  Z.prime q -> 0 <= a -> (q | a ^ (1 + Z.of_nat k * (q - 1)) - a).
Proof.
  intros Hq Ha. pose proof (Z.prime_ge_2 q Hq) as H2.
  induction k as [|k IH].
  - cbn [Z.of_nat]. rewrite Z.mul_0_l, Z.add_0_r, Z.pow_1_r, Z.sub_diag.
    apply Z.divide_0_r.
  - replace (1 + Z.of_nat (S k) * (q - 1))
      with (Z.of_nat k * (q - 1) + q) by lia.
    rewrite Z.pow_add_r by nia.
    replace (a ^ (Z.of_nat k * (q - 1)) * a ^ q - a)
      with (a ^ (Z.of_nat k * (q - 1)) * (a ^ q - a)
            + (a ^ (Z.of_nat k * (q - 1)) * a - a)) by ring.
    apply Z.divide_add_r.
    + apply Z.divide_mul_r. apply Z.mod_divide; [lia|].
      now apply fermat_little_Z.
    + replace (a ^ (Z.of_nat k * (q - 1)) * a)
        with (a ^ (1 + Z.of_nat k * (q - 1))); [exact IH|].
      rewrite Z.pow_add_r, Z.pow_1_r by nia. ring.
Qed.

Lemma congruent_561 (a : Z) : 0 <= a -> congruent 561 a = true.
Proof.
  intros Ha. unfold congruent. apply Z.eqb_eq. apply Z.mod_divide; [lia|].
  pose proof (pow_cycle 3 a 280 Z.prime_3 Ha) as H3.
  pose proof (pow_cycle 11 a 56 prime_11 Ha) as H11.
  pose proof (pow_cycle 17 a 35 prime_17 Ha) as H17.
  change (1 + Z.of_nat 280 * (3 - 1)) with 561 in H3.
  change (1 + Z.of_nat 56 * (11 - 1)) with 561 in H11.
  change (1 + Z.of_nat 35 * (17 - 1)) with 561 in H17.
  set (x := a ^ 561 - a) in *.
  destruct H3 as [u Hu].
  assert (11 | u) as [v Hv].
  { apply Z.gauss with 3; [|reflexivity].
    rewrite Z.mul_comm, <- Hu. exact H11. }
  assert (17 | v) as [t Ht].
  { apply Z.gauss with 33; [|reflexivity].
    replace (33 * v) with x by lia. exact H17. }
  exists t. lia.
Qed.

(** X11. The candidate 561 = 3 * 11 * 17 is not prime, yet whatever
    [rand()] returns its loop ends in [ProbablePrime] and the probable
    prime line is written: every witness is a fermat liar for it. *)
Theorem carmichael_561_probable_prime
  (tape : nat -> Z) (fuel : nat) (w : world) :
  (20 <= fuel)%nat ->
  ~ Z.prime 561 /\
  exists w' l',
    trial_loop tape fuel 561 w locals0 = Done (w', l') /\
    outcome_of l' = ProbablePrime /\
    out (report 561 w' l')
    = (out w ++ "561 is a probable prime" ++ nl)%string.
Proof.
  intros Hf. split.
  - intros [_ H]. apply (H 3); [lia|]. exists 187. reflexivity.
  - apply probable_prime_line; [unfold INT_MAX; lia | exact Hf|].
    intros a Ha. apply congruent_561. lia.
Qed.

Lemma carmichael_561_probable_prime_witness :
  ~ Z.prime 561 /\
  exists w' l',
    trial_loop tape_zero 20 561 world0 locals0 = Done (w', l') /\
    outcome_of l' = ProbablePrime /\
    out (report 561 w' l')
    = (out world0 ++ "561 is a probable prime" ++ nl)%string.
Proof. apply (carmichael_561_probable_prime tape_zero 20 world0). lia. Defined.

(** ** The program as it is shipped *)

(** X12. With [max = 1000] as in line 57, [main] runs to its end for every
    tape and writes exactly 997 lines, for the candidates 3 to 999 in
    order, after between 997 and 19940 calls of [rand()]; every composite
    line is right and every prime below 1000 has the probable prime
    line. *)
Theorem fermat_main_report (tape : nat -> Z) (fuel : nat) :
  (1000 <= fuel)%nat ->
  exists os w',
    fermat_main tape fuel = Done w' /\
    out w' = render os /\
    map fst os = candidates 1000 /\
    List.length os = 997%nat /\
    newlines (out w') = 997%nat /\
    997 <= Z.of_nat (rng w') <= 19940 /\
    Forall (fun po => sound_verdict (fst po) (snd po) /\
                      (Z.prime (fst po) -> snd po = ProbablePrime)) os.
Proof.
  intros Hf. unfold fermat_main, fermat_main_upto.
  assert (0 <= 1000 <= INT_MAX) as Hmax by (unfold INT_MAX; lia).
  destruct (scan_loop_list tape 1000 fuel Hmax ltac:(lia) 997 fuel 3 world0
              ltac:(lia) eq_refl ltac:(lia))
    as (os & w' & Hs & Hl & Hm & Ho).
  assert (Forall (fun p => 3 <= p <= INT_MAX) (upfrom 3 997)) as Hrange.
  { apply Forall_forall. intros x Hx. apply upfrom_In in Hx.
    unfold INT_MAX. lia. }
  assert (List.length os = 997%nat) as Hlen
    by (rewrite <- (length_map fst), Hm; apply upfrom_length).
  exists os, w'. split; [exact Hs|]. split; [exact Ho|].
  split; [exact Hm|]. split; [exact Hlen|]. split.
  { rewrite Ho. cbn [out world0 append]. now rewrite newlines_render. }
  split.
  { apply (scan_list_rng tape fuel _ ltac:(lia) Hrange) in Hl.
    rewrite upfrom_length in Hl. cbn [rng world0] in Hl. lia. }
  apply (scan_list_sound tape fuel _ ltac:(lia) Hrange) in Hl. exact Hl.
Qed.

Lemma fermat_main_report_witness :
  exists os w',
    fermat_main tape_zero 1000 = Done w' /\
    out w' = render os /\
    map fst os = candidates 1000 /\
    List.length os = 997%nat /\
    newlines (out w') = 997%nat /\
    997 <= Z.of_nat (rng w') <= 19940 /\
    Forall (fun po => sound_verdict (fst po) (snd po) /\
                      (Z.prime (fst po) -> snd po = ProbablePrime)) os.
Proof. apply (fermat_main_report tape_zero 1000). lia. Defined.
